(** * The global logger of package [log] (KennyMacCormik/common)

    A shallow embedding of [log.go]: the five package variables become one
    record of state, every exported function becomes a state transformer,
    and the parts of the Go standard library the package calls ([reflect],
    [sync.Mutex], [log/slog]) are modelled as far as the package uses them.

    A computation returns [None] when the Go program would not return to
    its caller: a run-time panic (nil dereference, [IsNil] on a kind that
    has no nil, unlocking an unlocked mutex) or a [Lock] on a mutex the
    only thread of control already holds. *)

From Stdlib Require Import ZArith String List Bool Lia.
From stdpp Require Import base option list strings gmap pretty.
Import ListNotations.

Local Open Scope string_scope.
Local Open Scope Z_scope.
Local Open Scope list_scope.

(** ** [reflect] and [io.Writer] values *)

Module reflect.

(** Modelled from the spec: [reflect] is the Go standard library, not
    part of this repository. Section 4.2 asks to tell "no sink provided"
    from "a handle that appears present but is semantically empty"; the
    code does so through [reflect.Value.Kind] and [IsNil]. The kinds a
    type that implements [io.Writer] can have: *)
Inductive Kind :=
| Bool | Int | String | Struct | Array
| Chan | Func | Interface | Map | Ptr | Slice | UnsafePointer.

Definition Kind_eqb (a b : Kind) : bool :=
  match a, b with
  | Bool, Bool | Int, Int | String, String | Struct, Struct
  | Array, Array | Chan, Chan | Func, Func | Interface, Interface
  | Map, Map | Ptr, Ptr | Slice, Slice | UnsafePointer, UnsafePointer => true
  | _, _ => false
  end.

(** A concrete value as [reflect.ValueOf] presents it: its kind, whether
    it is the nil of that kind, and an identity that tells two sinks
    apart. *)
Record Value := mkValue {
  Value_Kind : Kind;
  Value_nil : bool;
  Value_id : N
}.

(** Modelled from the spec: [Value.IsNil] (reflect, not in this
    repository) reports whether the handle is empty; it is defined for the
    kinds that have a nil and panics for all the others. *)
Definition Value_IsNil (v : Value) : option bool :=
  match Value_Kind v with
  | Chan | Func | Interface | Map | Ptr | Slice | UnsafePointer =>
      Some (Value_nil v)
  | _ => None
  end.

End reflect.

Module io.

(** An interface value of type [io.Writer]: the nil interface, or a
    dynamic value. *)
Inductive Writer :=
| nil
| dyn (v : reflect.Value).

End io.

Module os.

(** [os.Stdout], a non-nil [*os.File]. *)
Definition Stdout : io.Writer :=
  io.dyn (reflect.mkValue reflect.Ptr false 1).

End os.

(** ** [log/slog], as far as the package uses it *)

Module slog.

(** Modelled from the spec: the level type and its four constants belong
    to log/slog, the Go standard library, not to this repository. Section
    3 orders them Debug < Info < Warn < Error; the numbers are those of
    log/slog, where [Level] is an [int]. *)
Definition Level := Z.
Definition LevelDebug : Level := -4.
Definition LevelInfo : Level := 0.
Definition LevelWarn : Level := 4.
Definition LevelError : Level := 8.

(** Modelled from the spec: [Level.String] (log/slog), the "level tag" of
    section 8 that a handler prints: the name of the nearest named level
    below, and the signed distance to it when there is one. *)
Definition Level_String (l : Level) : string :=
  let str (base : string) (val : Z) : string :=
    if val =? 0 then base
    else if 0 <? val then base +:+ "+" +:+ pretty val
    else base +:+ pretty val in
  if l <? LevelInfo then str "DEBUG" (l - LevelDebug)
  else if l <? LevelWarn then str "INFO" (l - LevelInfo)
  else if l <? LevelError then str "WARN" (l - LevelWarn)
  else str "ERROR" (l - LevelError).

(** What the package stores in [HandlerOptions.Level], an interface with
    one method [Level]: in [init] the pointer to the package's only
    [LevelVar] ([logLevel], allocated there once), whose method loads the
    variable at each call; in [storeLogger] a [Level] value, whose method
    returns the value itself. *)
Inductive Leveler :=
| LevelVar_ptr
| Level_value (l : Level).

(** [Leveler.Level], given what [logLevel] points to ([None]: nil). *)
Definition Leveler_Level (lv : Leveler) (var : option Level) : option Level :=
  match lv with
  | LevelVar_ptr => var
  | Level_value l => Some l
  end.

(** The two handlers the package constructs, with the writer and the
    [Leveler] they are given. *)
Inductive HandlerKind := JSONHandler | TextHandler.

Record Handler := mkHandler {
  Handler_kind : HandlerKind;
  Handler_w : io.Writer;
  Handler_Level : Leveler
}.

Definition NewJSONHandler (w : io.Writer) (lv : Leveler) : Handler :=
  mkHandler JSONHandler w lv.

Definition NewTextHandler (w : io.Writer) (lv : Leveler) : Handler :=
  mkHandler TextHandler w lv.

Record Logger := New { Logger_Handler : Handler }.

(** The arguments of an emit call ([...any]) and attributes. Only the
    dynamic types the attribute scanner tells apart are distinguished. *)
Inductive any :=
| any_string (s : string)
| any_Attr (a : Attr)
| any_other (v : Z)
with Attr :=
| mkAttr (Key : string) (Value : any).

Definition Key (a : Attr) : string := let 'mkAttr k _ := a in k.
Definition Value (a : Attr) : any := let 'mkAttr _ v := a in v.

Definition badKey : string := "!BADKEY".

(** Modelled from the spec: [argsToAttr] belongs to log/slog, the Go
    standard library, not to this repository. Section 4.5 and the package
    comment of [log]: an [Attr] is used as is; a string that is not the
    last argument takes the next argument as its value; anything else is a
    value under ["!BADKEY"]. Returns the attribute and the arguments left;
    [None] on an empty list, where Go would index out of range. *)
Definition argsToAttr (args : list any) : option (Attr * list any) :=
  match args with
  | [] => None
  | any_string x :: [] => Some (mkAttr badKey (any_string x), [])
  | any_string x :: v :: rest => Some (mkAttr x v, rest)
  | any_Attr a :: rest => Some (a, rest)
  | x :: rest => Some (mkAttr badKey x, rest)
  end.

(** Modelled from the spec: the loop of [Record.Add] (log/slog, not in
    this repository), which scans left to right:
    [for len(args) > 0 { a, args = argsToAttr(args); append a }],
    run for at most [fuel] iterations. [None]: fuel exhausted or a panic
    of [argsToAttr]. *)
Fixpoint Record_Add_loop (fuel : nat) (args : list any) (acc : list Attr)
  : option (list Attr) :=
  match args with
  | [] => Some acc
  | _ :: _ =>
      match fuel with
      | O => None
      | S fuel' =>
          match argsToAttr args with
          | None => None
          | Some (a, args') => Record_Add_loop fuel' args' (acc ++ [a])
          end
      end
  end.

(** [Record.Add]. Every iteration consumes an argument, so the loop is
    given [length args] iterations; [Record_Add_loop_enough] shows they
    suffice. *)
Definition Record_Add (args : list any) : option (list Attr) :=
  Record_Add_loop (length args) args [].

(** A [slog.Record] without its time and program counter. *)
Record LogRecord := mkRecord {
  Record_Level : Level;
  Record_Message : string;
  Record_attrs : list Attr
}.

(** One [Write] received by a sink: the record and the encoding the
    handler rendered it in. The bytes themselves are the renderer's. *)
Record Line := mkLine {
  Line_kind : HandlerKind;
  Line_record : LogRecord
}.

(** Modelled from the spec: [Handler.Enabled] (log/slog, not in this
    repository). Section 4.5: a record passes when its level is at or
    above the level the handler's [Leveler] reports. *)
Definition Handler_Enabled (h : Handler) (var : option Level) (level : Level)
  : option bool :=
  match Leveler_Level (Handler_Level h) var with
  | None => None
  | Some minLevel => Some (minLevel <=? level)
  end.

(** Modelled from the spec: [Logger.log] (log/slog, not in this
    repository). Section 4.5: if the level passes, build the record, add
    the attributes and hand it to the handler, which writes one rendered
    line to its writer; otherwise do nothing. Returns the writes
    performed. *)
Definition Logger_log (l : Logger) (var : option Level)
    (level : Level) (msg : string) (args : list any)
  : option (list (io.Writer * Line)) :=
  let h := Logger_Handler l in
  match Handler_Enabled h var level with
  | None => None
  | Some false => Some []
  | Some true =>
      match Record_Add args with
      | None => None
      | Some attrs =>
          Some [(Handler_w h,
                 mkLine (Handler_kind h) (mkRecord level msg attrs))]
      end
  end.

(** [Logger.Debug], [Logger.Info], [Logger.Warn], [Logger.Error]: [log]
    at the level of the name. *)
Definition Logger_Debug (l : Logger) (var : option Level) :=
  Logger_log l var LevelDebug.
Definition Logger_Info (l : Logger) (var : option Level) :=
  Logger_log l var LevelInfo.
Definition Logger_Warn (l : Logger) (var : option Level) :=
  Logger_log l var LevelWarn.
Definition Logger_Error (l : Logger) (var : option Level) :=
  Logger_log l var LevelError.

End slog.

(** ** Package [log]: state *)

(** The package variables, and what the sinks have received so far. *)
Record State := mkState {
  globalLogger : option slog.Logger;   (* *slog.Logger, None: nil *)
  logLevel : option slog.Level;        (* *slog.LevelVar, None: nil,
                                          Some l: a variable holding l *)
  output : io.Writer;
  handler : Z;                         (* atomic.Int64, 0 = JSON, 1 = Text *)
  mtx : bool;                          (* sync.Mutex, true: locked *)
  written : list (io.Writer * slog.Line)  (* oldest first *)
}.

Definition set_globalLogger (l : slog.Logger) (st : State) : State :=
  mkState (Some l) (logLevel st) (output st) (handler st) (mtx st) (written st).

Definition set_logLevel (v : option slog.Level) (st : State) : State :=
  mkState (globalLogger st) v (output st) (handler st) (mtx st) (written st).

Definition set_output (w : io.Writer) (st : State) : State :=
  mkState (globalLogger st) (logLevel st) w (handler st) (mtx st) (written st).

Definition set_handler (n : Z) (st : State) : State :=
  mkState (globalLogger st) (logLevel st) (output st) n (mtx st) (written st).

Definition set_mtx (b : bool) (st : State) : State :=
  mkState (globalLogger st) (logLevel st) (output st) (handler st) b (written st).

Definition add_written (ws : list (io.Writer * slog.Line)) (st : State) : State :=
  mkState (globalLogger st) (logLevel st) (output st) (handler st) (mtx st)
          (written st ++ ws).

(** The zero values the variables have before [init] runs. *)
Definition zero : State := mkState None None io.nil 0 false [].

(** *** [sync.Mutex], one thread of control *)

(** [mtx.Lock()]: on a held mutex the caller waits for ever. *)
Definition mtx_Lock (st : State) : option State :=
  if mtx st then None else Some (set_mtx true st).

(** [mtx.TryLock()]: reports whether it took the lock. *)
Definition mtx_TryLock (st : State) : bool * State :=
  if mtx st then (false, st) else (true, set_mtx true st).

(** [mtx.Unlock()]: a fatal error on a mutex that is not locked. *)
Definition mtx_Unlock (st : State) : option State :=
  if mtx st then Some (set_mtx false st) else None.

(** *** [*slog.LevelVar] methods on [logLevel] *)

Definition logLevel_Level (st : State) : option slog.Level := logLevel st.

Definition logLevel_Set (l : slog.Level) (st : State) : option State :=
  match logLevel st with
  | None => None
  | Some _ => Some (set_logLevel (Some l) st)
  end.

(** ** Package [log]: functions *)

(** [type LoggingOptions func()]: a closure over the package variables. *)
Definition LoggingOptions := State -> option State.

(** [isNotNilOrNilPointer] *)
Definition isNotNilOrNilPointer (out : io.Writer) : option bool :=
  match out with
  | io.nil => Some false
  | io.dyn val =>
      let kind := reflect.Value_Kind val in
      if reflect.Kind_eqb kind reflect.Ptr
         || reflect.Kind_eqb kind reflect.Interface
      then
        match reflect.Value_IsNil val with
        | None => None
        | Some true => Some false
        | Some false => Some true
        end
      else Some true
  end.

(** [storeLogger]: the JSON branch binds the parameter [out], the text
    branch the package variable [output]; both take the [Level] value. *)
Definition storeLogger (out : io.Writer) (level : slog.Level) (st : State)
  : option State :=
  let '(locked, st1) := mtx_TryLock st in
  let st2 :=
    if handler st1 =? 0 then
      set_globalLogger
        (slog.New (slog.NewJSONHandler out (slog.Level_value level))) st1
    else
      set_globalLogger
        (slog.New (slog.NewTextHandler (output st1) (slog.Level_value level))) st1
  in
  if locked then mtx_Unlock st2 else Some st2.

(** [WithJSONFormat] *)
Definition WithJSONFormat : LoggingOptions := fun st =>
  let st1 := set_handler 0 st in
  level ← logLevel_Level st1;
  storeLogger (output st1) level st1.

(** [WithTextFormat] *)
Definition WithTextFormat : LoggingOptions := fun st =>
  let st1 := set_handler 1 st in
  level ← logLevel_Level st1;
  storeLogger (output st1) level st1.

(** [WithOutput]: the deferred [Unlock] runs last. *)
Definition WithOutput (out : io.Writer) : LoggingOptions := fun st =>
  st1 ← mtx_Lock st;
  ok ← isNotNilOrNilPointer out;
  let st2 := if ok : bool then set_output out st1 else set_output os.Stdout st1 in
  level ← logLevel_Level st2;
  st3 ← storeLogger (output st2) level st2;
  mtx_Unlock st3.

(** The map literal of [WithLogLevel]. *)
Definition logLevelMap : gmap string slog.Level :=
  {[ "debug" := slog.LevelDebug; "info" := slog.LevelInfo;
     "warn" := slog.LevelWarn; "error" := slog.LevelError ]}.

(** [WithLogLevel]: indexing a Go map with a missing key gives the zero
    value. *)
Definition WithLogLevel (level : string) : LoggingOptions := fun st =>
  let level :=
    if negb (String.eqb level "debug") && negb (String.eqb level "info")
       && negb (String.eqb level "warn") && negb (String.eqb level "error")
    then "warn" else level in
  logLevel_Set (default 0 (logLevelMap !! level)) st.

(** [Configure] *)
Fixpoint Configure (options : list LoggingOptions) (st : State) : option State :=
  match options with
  | [] => Some st
  | option :: rest =>
      match option st with
      | None => None
      | Some st1 => Configure rest st1
      end
  end.

(** Calling a method of [*globalLogger]: a nil pointer panics, the writes
    the method performs reach the sinks. *)
Definition on_globalLogger
    (method : slog.Logger -> option slog.Level -> string -> list slog.any ->
              option (list (io.Writer * slog.Line)))
    (msg : string) (args : list slog.any) (st : State) : option State :=
  l ← globalLogger st;
  ws ← method l (logLevel st) msg args;
  Some (add_written ws st).

(** [Debug], [Info], [Warn], [Error] *)
Definition Debug (msg : string) (args : list slog.any) : State -> option State :=
  on_globalLogger slog.Logger_Debug msg args.

Definition Info (msg : string) (args : list slog.any) : State -> option State :=
  on_globalLogger slog.Logger_Info msg args.

Definition Warn (msg : string) (args : list slog.any) : State -> option State :=
  on_globalLogger slog.Logger_Warn msg args.

Definition Error (msg : string) (args : list slog.any) : State -> option State :=
  on_globalLogger slog.Logger_Error msg args.

(** [init] *)
Definition init (st : State) : option State :=
  let st1 := set_logLevel (Some slog.LevelInfo) st in   (* new(slog.LevelVar) *)
  let st2 := set_output os.Stdout st1 in
  let st3 := set_handler 0 st2 in
  st4 ← logLevel_Set slog.LevelWarn st3;
  let st5 :=
    set_globalLogger
      (slog.New (slog.NewJSONHandler (output st4) slog.LevelVar_ptr)) st4 in
  Debug "logger init success"
    [slog.any_string "log level"; slog.any_string "warn";
     slog.any_string "output"; slog.any_string "os.Stdout";
     slog.any_string "format"; slog.any_string "json"] st5.

(** The state the package is in when [main] starts. *)
Definition initial : State :=
  default zero (init zero).

(** Modelled from the spec: [CopyLogger] is absent from log.go as it is
    here; only its tests and its README entry are present. Section 4.5: it
    "returns the BoundLogger instance currently installed in the Global
    Logger Cell (by reference, not by deep duplication)". *)
Definition CopyLogger (st : State) : option slog.Logger := globalLogger st.

(** ** Vocabulary of the statements *)

(** The four constructors of [LoggingOptions] the package exports, as
    data, so that a statement can range over sequences of them. *)
Inductive Call :=
| CallJSONFormat
| CallTextFormat
| CallOutput (out : io.Writer)
| CallLogLevel (level : string).

Definition option_of (c : Call) : LoggingOptions :=
  match c with
  | CallJSONFormat => WithJSONFormat
  | CallTextFormat => WithTextFormat
  | CallOutput out => WithOutput out
  | CallLogLevel level => WithLogLevel level
  end.

(** The calls that end in [storeLogger]. *)
Definition rebuilds (c : Call) : bool :=
  match c with
  | CallLogLevel _ => false
  | _ => true
  end.

Definition is_format (c : Call) : bool :=
  match c with
  | CallJSONFormat | CallTextFormat => true
  | _ => false
  end.

(** What [handler] and the bound handler are after a format call. *)
Definition format_code (c : Call) : Z :=
  match c with
  | CallTextFormat => 1
  | _ => 0
  end.

Definition format_kind (c : Call) : slog.HandlerKind :=
  match c with
  | CallTextFormat => slog.TextHandler
  | _ => slog.JSONHandler
  end.

(** A sink that is absent, or a present handle around a nil pointer or a
    nil interface. *)
Definition absent_or_wraps_nil (out : io.Writer) : bool :=
  match out with
  | io.nil => true
  | io.dyn v =>
      match reflect.Value_Kind v with
      | reflect.Ptr | reflect.Interface => reflect.Value_nil v
      | _ => false
      end
  end.

(** The destination [WithOutput out] is to leave behind. *)
Definition destination_for (out : io.Writer) : io.Writer :=
  if absent_or_wraps_nil out then os.Stdout else out.

(** The level a severity name stands for. *)
Definition level_named (name : string) : slog.Level :=
  if String.eqb name "debug" then slog.LevelDebug
  else if String.eqb name "info" then slog.LevelInfo
  else if String.eqb name "error" then slog.LevelError
  else slog.LevelWarn.

(** The attribute grammar in the words of section 4.5, scanning left to
    right: a pre-formed attribute stands for itself (one position); a bare
    string that is not last takes the next argument as its value (two
    positions); anything else goes under the sentinel key (one
    position). *)
Fixpoint attr_grammar (args : list slog.any) : list slog.Attr :=
  match args with
  | [] => []
  | slog.any_Attr a :: rest => a :: attr_grammar rest
  | slog.any_string k :: v :: rest => slog.mkAttr k v :: attr_grammar rest
  | x :: rest => slog.mkAttr "!BADKEY" x :: attr_grammar rest
  end.

(** After [init]: nothing holds the lock between two calls, and the two
    pointers are not nil. *)
Definition ready (st : State) : Prop :=
  mtx st = false /\ is_Some (logLevel st) /\ is_Some (globalLogger st).

(** The bound logger carries a [Level] value, as [storeLogger] builds it. *)
Definition bound_to_value (st : State) : Prop :=
  exists k w l,
    globalLogger st = Some (slog.New (slog.mkHandler k w (slog.Level_value l))).

(** What a logger held by a caller does when one of its methods is called
    directly in state [st]. *)
Definition direct_call (lg : slog.Logger) (st : State)
    (level : slog.Level) (msg : string) (args : list slog.any)
  : option (list (io.Writer * slog.Line)) :=
  slog.Logger_log lg (logLevel st) level msg args.

(** A logger copied in [st] behaves the same, called directly, after any
    further configuration. *)
Definition copy_frozen (st : State) : Prop :=
  forall lg calls st' level msg args,
    CopyLogger st = Some lg ->
    Configure (map option_of calls) st = Some st' ->
    direct_call lg st' level msg args = direct_call lg st level msg args.

(** ** The helper of the package's tests *)

(** [resetLoggerConf], which the tests defer after every case. *)
Definition resetLoggerConf (st : State) : option State :=
  let st1 := set_output os.Stdout st in
  let st2 := set_handler 0 st1 in
  st3 ← logLevel_Set slog.LevelWarn st2;
  Some (set_globalLogger
          (slog.New (slog.NewJSONHandler (output st3) slog.LevelVar_ptr)) st3).

(** ** Programs over the package's API *)

(** The four emit functions, as data. *)
Inductive Emitter := EDebug | EInfo | EWarn | EError.

Definition Emitter_level (e : Emitter) : slog.Level :=
  match e with
  | EDebug => slog.LevelDebug
  | EInfo => slog.LevelInfo
  | EWarn => slog.LevelWarn
  | EError => slog.LevelError
  end.

Definition emitter_of (e : Emitter)
  : string -> list slog.any -> State -> option State :=
  match e with
  | EDebug => Debug
  | EInfo => Info
  | EWarn => Warn
  | EError => Error
  end.

(** One call a client of the package can make. *)
Inductive ApiCall :=
| ApiConfigure (calls : list Call)
| ApiEmit (e : Emitter) (msg : string) (args : list slog.any).

Definition run_call (a : ApiCall) (st : State) : option State :=
  match a with
  | ApiConfigure calls => Configure (map option_of calls) st
  | ApiEmit e msg args => emitter_of e msg args st
  end.

(** A client program: calls made one after the other by one thread; a
    panic or a deadlock ends it. *)
Fixpoint run_program (p : list ApiCall) (st : State) : option State :=
  match p with
  | [] => Some st
  | a :: rest =>
      match run_call a st with
      | None => None
      | Some st1 => run_program rest st1
      end
  end.

Definition is_emit (a : ApiCall) : bool :=
  match a with
  | ApiEmit _ _ _ => true
  | ApiConfigure _ => false
  end.

(** How many emit calls a program makes. *)
Fixpoint emit_calls (p : list ApiCall) : nat :=
  match p with
  | [] => 0%nat
  | a :: rest => ((if is_emit a then 1 else 0) + emit_calls rest)%nat
  end.

(** A line an emit call of the program accounts for. *)
Definition emitted_by (p : list ApiCall) (wl : io.Writer * slog.Line) : Prop :=
  exists e msg args,
    In (ApiEmit e msg args) p /\
    slog.Line_record (snd wl) =
      slog.mkRecord (Emitter_level e) msg (attr_grammar args).

(** The four levels that have a name. *)
Definition named (l : slog.Level) : Prop :=
  l = slog.LevelDebug \/ l = slog.LevelInfo \/
  l = slog.LevelWarn \/ l = slog.LevelError.

(** What the settings and the installed logger have to do with each
    other: [handler] holds 0 or 1, the logger is of that format and bound
    to the destination in [output], which is a usable sink; the gate holds
    a named level and so does a logger bound to a value. *)
Definition settled (st : State) : Prop :=
  (handler st = 0 \/ handler st = 1) /\
  absent_or_wraps_nil (output st) = false /\
  (exists gate, logLevel st = Some gate /\ named gate) /\
  exists lv,
    globalLogger st =
      Some (slog.New
              (slog.mkHandler
                 (if handler st =? 0 then slog.JSONHandler else slog.TextHandler)
                 (output st) lv)) /\
    match lv with
    | slog.LevelVar_ptr => True
    | slog.Level_value l => named l
    end.

(** ** Package [router]: the factory of gin routers *)

Module router.
Section GinFactory.

(** gin is a third-party library, not part of this repository: its types
    [gin.HandlerFunc] and [gin.Engine], the middleware [gin.Recovery()],
    the constructor [gin.New()] and the method [Engine.Use] are taken as
    parameters. Functions that receive a [*gin.Engine] and mutate it are
    functions from engines to engines. *)
Context {HandlerFunc Engine : Type}.
Context (gin_Recovery : HandlerFunc).
Context (gin_New : Engine).
Context (Engine_Use : Engine -> HandlerFunc -> Engine).

(** [type GinFactory struct] *)
Record GinFactory := mkGinFactory {
  middleware : list HandlerFunc;
  handlers : list (Engine -> Engine)
}.

(** [NewGinFactory] *)
Definition NewGinFactory : GinFactory :=
  mkGinFactory [gin_Recovery] [].

(** [AddMiddleware] *)
Definition AddMiddleware (ms : list HandlerFunc) (g : GinFactory) : GinFactory :=
  mkGinFactory (middleware g ++ ms) (handlers g).

(** [ResetMiddleware]: the body is that of [AddMiddleware]. *)
Definition ResetMiddleware (ms : list HandlerFunc) (g : GinFactory) : GinFactory :=
  mkGinFactory (middleware g ++ ms) (handlers g).

(** [AddHandlers] *)
Definition AddHandlers (hs : list (Engine -> Engine)) (g : GinFactory)
  : GinFactory :=
  mkGinFactory (middleware g) (handlers g ++ hs).

(** [CreateRouter]: the two [for ... range] loops, on a new engine. *)
Definition CreateRouter (g : GinFactory) : Engine :=
  let router := gin_New in
  let router := fold_left (fun r m => Engine_Use r m) (middleware g) router in
  fold_left (fun r h => h r) (handlers g) router.

(** The three mutating methods, as data. *)
Inductive Op :=
| OpAddMiddleware (ms : list HandlerFunc)
| OpResetMiddleware (ms : list HandlerFunc)
| OpAddHandlers (hs : list (Engine -> Engine)).

Definition run_op (o : Op) (g : GinFactory) : GinFactory :=
  match o with
  | OpAddMiddleware ms => AddMiddleware ms g
  | OpResetMiddleware ms => ResetMiddleware ms g
  | OpAddHandlers hs => AddHandlers hs g
  end.

Definition run_ops (ops : list Op) (g : GinFactory) : GinFactory :=
  fold_left (fun g o => run_op o g) ops g.

(** The middleware, and the handlers, a method call was given. *)
Definition middleware_given (o : Op) : list HandlerFunc :=
  match o with
  | OpAddMiddleware ms | OpResetMiddleware ms => ms
  | OpAddHandlers _ => []
  end.

Definition handlers_given (o : Op) : list (Engine -> Engine) :=
  match o with
  | OpAddHandlers hs => hs
  | _ => []
  end.

End GinFactory.
End router.

(** * Properties *)

(** ** The mutex and [storeLogger] *)

Lemma storeLogger_unlocked out level st :
  mtx st = false ->
  storeLogger out level st =
    Some (set_globalLogger
            (slog.New (if handler st =? 0
                       then slog.NewJSONHandler out (slog.Level_value level)
                       else slog.NewTextHandler (output st) (slog.Level_value level)))
            st).
Proof.
  intros Hm. destruct st as [g lv o h m w]; simpl in Hm; subst m.
  unfold storeLogger, mtx_TryLock; simpl.
  destruct (h =? 0); reflexivity.
Qed.

Lemma storeLogger_locked out level st :
  mtx st = true ->
  storeLogger out level st =
    Some (set_globalLogger
            (slog.New (if handler st =? 0
                       then slog.NewJSONHandler out (slog.Level_value level)
                       else slog.NewTextHandler (output st) (slog.Level_value level)))
            st).
Proof.
  intros Hm. destruct st as [g lv o h m w]; simpl in Hm; subst m.
  unfold storeLogger, mtx_TryLock; simpl.
  destruct (h =? 0); reflexivity.
Qed.

(** Whoever holds the lock, [storeLogger] returns, and leaves the lock as
    it found it. *)
Lemma storeLogger_returns out level st :
  storeLogger out level st =
    Some (set_globalLogger
            (slog.New (if handler st =? 0
                       then slog.NewJSONHandler out (slog.Level_value level)
                       else slog.NewTextHandler (output st) (slog.Level_value level)))
            st).
Proof.
  destruct (mtx st) eqn:Hm;
    [apply storeLogger_locked | apply storeLogger_unlocked]; exact Hm.
Qed.

(** ** [isNotNilOrNilPointer] *)

(** The guard on the kind keeps [IsNil] from panicking, and the answer is
    the negation of [absent_or_wraps_nil]. *)
Lemma isNotNilOrNilPointer_spec out :
  isNotNilOrNilPointer out = Some (negb (absent_or_wraps_nil out)).
Proof.
  destruct out as [|[k n i]]; [reflexivity|].
  destruct k, n; reflexivity.
Qed.

(** ** The options, one by one *)

Lemma format_call_eq c st old :
  is_format c = true ->
  logLevel st = Some old ->
  option_of c st =
    Some (set_globalLogger
            (slog.New (slog.mkHandler (format_kind c) (output st)
                         (slog.Level_value old)))
            (set_handler (format_code c) st)).
Proof.
  intros Hc Hl. destruct st as [g lv o h m w]; simpl in Hl; subst lv.
  destruct c; try discriminate Hc;
    unfold option_of, WithJSONFormat, WithTextFormat, logLevel_Level;
    cbn [logLevel set_handler mbind option_bind];
    rewrite storeLogger_returns; reflexivity.
Qed.

Lemma WithOutput_eq out st old :
  mtx st = false ->
  logLevel st = Some old ->
  WithOutput out st =
    Some (set_globalLogger
            (slog.New (slog.mkHandler
                         (if handler st =? 0 then slog.JSONHandler
                          else slog.TextHandler)
                         (destination_for out) (slog.Level_value old)))
            (set_output (destination_for out) st)).
Proof.
  intros Hm Hl. destruct st as [g lv o h m w]; simpl in Hm, Hl; subst m lv.
  unfold WithOutput, mtx_Lock, logLevel_Level.
  cbn [mtx mbind option_bind]. rewrite isNotNilOrNilPointer_spec.
  cbn [mbind option_bind]. unfold destination_for.
  destruct (absent_or_wraps_nil out);
    cbn [negb set_output set_mtx logLevel mbind option_bind];
    rewrite storeLogger_returns; cbn; destruct (h =? 0); reflexivity.
Qed.

Lemma WithLogLevel_eq name st old :
  logLevel st = Some old ->
  WithLogLevel name st = Some (set_logLevel (Some (level_named name)) st).
Proof.
  intros Hl. unfold WithLogLevel, logLevel_Set, level_named. rewrite Hl.
  destruct (String.eqb name "debug") eqn:Hd.
  { apply String.eqb_eq in Hd; subst name; reflexivity. }
  destruct (String.eqb name "info") eqn:Hi.
  { apply String.eqb_eq in Hi; subst name; reflexivity. }
  destruct (String.eqb name "warn") eqn:Hw.
  { apply String.eqb_eq in Hw; subst name; reflexivity. }
  destruct (String.eqb name "error") eqn:He.
  { apply String.eqb_eq in He; subst name; reflexivity. }
  reflexivity.
Qed.

(** ** [Configure] *)

Lemma Configure_app xs ys st :
  Configure (xs ++ ys) st = Configure xs st ≫= Configure ys.
Proof.
  revert st. induction xs as [|x xs IH]; intros st; [reflexivity|].
  simpl. destruct (x st) as [st1|]; [apply IH | reflexivity].
Qed.

Lemma Configure_one x st : Configure [x] st = x st.
Proof. simpl. destruct (x st); reflexivity. Qed.

(** Every exported option returns on a ready state and leaves it ready. *)
Lemma option_of_ready c st :
  ready st -> exists st', option_of c st = Some st' /\ ready st'.
Proof.
  intros (Hm & [old Hl] & Hg).
  destruct c as [| |out|name].
  - eexists; split; [apply (format_call_eq CallJSONFormat st old); auto|].
    repeat split; simpl; eauto.
  - eexists; split; [apply (format_call_eq CallTextFormat st old); auto|].
    repeat split; simpl; eauto.
  - eexists; split; [apply (WithOutput_eq out st old); auto|].
    repeat split; simpl; eauto.
  - eexists; split; [apply (WithLogLevel_eq name st old); auto|].
    repeat split; simpl; eauto.
Qed.

Lemma Configure_ready calls st :
  ready st ->
  exists st', Configure (map option_of calls) st = Some st' /\ ready st'.
Proof.
  revert st. induction calls as [|c calls IH]; intros st Hr.
  - exists st; split; [reflexivity | exact Hr].
  - destruct (option_of_ready c st Hr) as (st1 & Hc & Hr1).
    destruct (IH st1 Hr1) as (st2 & Hcs & Hr2).
    exists st2; split; [|exact Hr2]. simpl. rewrite Hc. exact Hcs.
Qed.

Lemma ready_initial : ready initial.
Proof. repeat split; vm_compute; eauto. Qed.

(** ** The attribute scanner *)

Lemma Record_Add_loop_enough fuel :
  forall args acc,
    (length args <= fuel)%nat ->
    slog.Record_Add_loop fuel args acc = Some (acc ++ attr_grammar args).
Proof.
  induction fuel as [|fuel IH]; intros args acc Hlen.
  - destruct args; [simpl; now rewrite app_nil_r | simpl in Hlen; lia].
  - destruct args as [|x rest]; [simpl; now rewrite app_nil_r|].
    simpl in Hlen.
    destruct x as [s|a|v].
    + destruct rest as [|v rest].
      * destruct fuel; reflexivity.
      * cbn [slog.Record_Add_loop slog.argsToAttr attr_grammar].
        rewrite IH by (simpl in Hlen; lia). now rewrite <- app_assoc.
    + cbn [slog.Record_Add_loop slog.argsToAttr attr_grammar].
      rewrite IH by lia. now rewrite <- app_assoc.
    + cbn [slog.Record_Add_loop slog.argsToAttr attr_grammar].
      rewrite IH by lia. now rewrite <- app_assoc.
Qed.

Lemma Record_Add_grammar args :
  slog.Record_Add args = Some (attr_grammar args).
Proof. unfold slog.Record_Add. now rewrite Record_Add_loop_enough. Qed.

(** ** The emit functions *)

Lemma add_written_nil st : add_written [] st = st.
Proof. destruct st; unfold add_written; simpl; now rewrite app_nil_r. Qed.

(** An emit call compares the level with what the bound handler's
    [Leveler] reports, which is the gate only for the logger of [init]. *)
Lemma emit_at level msg args st k w lv threshold :
  globalLogger st = Some (slog.New (slog.mkHandler k w lv)) ->
  slog.Leveler_Level lv (logLevel st) = Some threshold ->
  on_globalLogger (fun l var => slog.Logger_log l var level) msg args st =
    Some (if threshold <=? level
          then add_written
                 [(w, slog.mkLine k (slog.mkRecord level msg (attr_grammar args)))]
                 st
          else st).
Proof.
  intros Hg Hl. unfold on_globalLogger. rewrite Hg. cbn [mbind option_bind].
  unfold slog.Logger_log, slog.Handler_Enabled.
  cbn [slog.Logger_Handler slog.Handler_Level slog.Handler_w slog.Handler_kind].
  rewrite Hl. destruct (threshold <=? level).
  - rewrite Record_Add_grammar. reflexivity.
  - cbn [mbind option_bind]. now rewrite add_written_nil.
Qed.

(** * The claims *)

(** C9. When the program starts, [init] has run on the zero values and
    returned: the gate holds Warn, the format selector holds 0 (JSON), the
    destination is standard output, and the global logger is a JSON
    handler bound to standard output and to the gate; nothing has been
    written (the Debug record of [init] is below the gate) and the lock is
    free. *)
Theorem init_defaults :
  init zero =
    Some (mkState
            (Some (slog.New (slog.NewJSONHandler os.Stdout slog.LevelVar_ptr)))
            (Some slog.LevelWarn) os.Stdout 0 false []) /\
  logLevel initial = Some slog.LevelWarn /\
  handler initial = 0 /\
  output initial = os.Stdout /\
  globalLogger initial =
    Some (slog.New (slog.NewJSONHandler os.Stdout slog.LevelVar_ptr)) /\
  mtx initial = false /\
  written initial = [].
Proof. repeat split. Qed.

(** C4. On an allocated gate, [WithLogLevel] returns normally for every
    string; "debug", "info", "warn" and "error" set the gate to the level
    of that name and every other string, the empty one included, sets it
    to Warn; nothing else changes. *)
Theorem WithLogLevel_sets_gate (st : State) (old : slog.Level)
    (Hgate : logLevel st = Some old) :
  WithLogLevel "debug" st = Some (set_logLevel (Some slog.LevelDebug) st) /\
  WithLogLevel "info" st = Some (set_logLevel (Some slog.LevelInfo) st) /\
  WithLogLevel "warn" st = Some (set_logLevel (Some slog.LevelWarn) st) /\
  WithLogLevel "error" st = Some (set_logLevel (Some slog.LevelError) st) /\
  WithLogLevel "" st = Some (set_logLevel (Some slog.LevelWarn) st) /\
  forall name : string,
    name <> "debug" -> name <> "info" -> name <> "warn" -> name <> "error" ->
    WithLogLevel name st = Some (set_logLevel (Some slog.LevelWarn) st).
Proof.
  repeat split; try (rewrite (WithLogLevel_eq _ st old Hgate); reflexivity).
  intros name Hd Hi Hw He.
  rewrite (WithLogLevel_eq _ st old Hgate). unfold level_named.
  apply String.eqb_neq in Hd, Hi, He. now rewrite Hd, Hi, He.
Qed.

Lemma WithLogLevel_sets_gate_witness :
  logLevel initial = Some slog.LevelWarn /\
  WithLogLevel "info" initial =
    Some (set_logLevel (Some slog.LevelInfo) initial) /\
  WithLogLevel "verbose" initial =
    Some (set_logLevel (Some slog.LevelWarn) initial).
Proof.
  split; [reflexivity|].
  destruct (WithLogLevel_sets_gate initial slog.LevelWarn eq_refl)
    as (_ & Hinfo & _ & _ & _ & Hother).
  split; [exact Hinfo|].
  apply Hother; discriminate.
Defined.

(** C5. Called with the lock free and the gate allocated, [WithOutput]
    returns normally for every [io.Writer] value. If the value is the nil
    interface, or a handle around a nil pointer or a nil interface, the
    destination afterwards is standard output; otherwise it is the value
    supplied. The destination is both the package variable [output] and
    the writer of the rebuilt global logger; the lock is free again. *)
Theorem WithOutput_destination (out : io.Writer) (st : State)
    (old : slog.Level)
    (Hfree : mtx st = false) (Hgate : logLevel st = Some old) :
  exists st' h,
    WithOutput out st = Some st' /\
    output st' = (if absent_or_wraps_nil out then os.Stdout else out) /\
    globalLogger st' = Some (slog.New h) /\
    slog.Handler_w h = output st' /\
    mtx st' = false.
Proof.
  rewrite (WithOutput_eq out st old Hfree Hgate).
  eexists; eexists; split; [reflexivity|].
  repeat split. exact Hfree.
Qed.

Lemma WithOutput_destination_witness :
  exists st' h,
    WithOutput (io.dyn (reflect.mkValue reflect.Ptr true 9)) initial = Some st' /\
    output st' = os.Stdout /\
    globalLogger st' = Some (slog.New h) /\
    slog.Handler_w h = output st' /\
    mtx st' = false.
Proof.
  exact (WithOutput_destination
           (io.dyn (reflect.mkValue reflect.Ptr true 9)) initial
           slog.LevelWarn eq_refl eq_refl).
Defined.

(** C6. The attributes of a record are the arguments read left to right
    by the grammar: the scanner of [Record.Add] returns for every argument
    list, and obeys the three rules (an [Attr] stands for itself and takes
    one position; a string that is not last takes the next argument as
    its value, two positions; a last string or any other value goes under
    "!BADKEY", one position), so it returns [attr_grammar args];
    ("k", "v", "lonely") gives k = v followed by !BADKEY = lonely. With a
    logger installed whose [Leveler] reports [threshold], each of
    [Debug], [Info], [Warn], [Error] returns for every argument list: it
    writes nothing when its level is below [threshold], and otherwise
    writes to the logger's writer exactly one line, in the logger's
    format, with its level, the message given and exactly the attributes
    of the grammar. *)
Theorem attributes_follow_grammar (st : State) (msg : string)
    (args : list slog.any) (k : slog.HandlerKind) (w : io.Writer)
    (lv : slog.Leveler) (threshold : slog.Level)
    (Hlogger : globalLogger st = Some (slog.New (slog.mkHandler k w lv)))
    (Hlevel : slog.Leveler_Level lv (logLevel st) = Some threshold) :
  slog.Record_Add args = Some (attr_grammar args) /\
  slog.Record_Add [] = Some [] /\
  (forall a rest,
     slog.Record_Add (slog.any_Attr a :: rest) =
       cons a <$> slog.Record_Add rest) /\
  (forall key v rest,
     slog.Record_Add (slog.any_string key :: v :: rest) =
       cons (slog.mkAttr key v) <$> slog.Record_Add rest) /\
  (forall s,
     slog.Record_Add [slog.any_string s] =
       Some [slog.mkAttr "!BADKEY" (slog.any_string s)]) /\
  (forall v rest,
     slog.Record_Add (slog.any_other v :: rest) =
       cons (slog.mkAttr "!BADKEY" (slog.any_other v)) <$> slog.Record_Add rest) /\
  slog.Record_Add
    [slog.any_string "k"; slog.any_string "v"; slog.any_string "lonely"] =
    Some [slog.mkAttr "k" (slog.any_string "v");
          slog.mkAttr "!BADKEY" (slog.any_string "lonely")] /\
  Debug msg args st =
    Some (if threshold <=? slog.LevelDebug
          then add_written
                 [(w, slog.mkLine k
                        (slog.mkRecord slog.LevelDebug msg (attr_grammar args)))]
                 st
          else st) /\
  Info msg args st =
    Some (if threshold <=? slog.LevelInfo
          then add_written
                 [(w, slog.mkLine k
                        (slog.mkRecord slog.LevelInfo msg (attr_grammar args)))]
                 st
          else st) /\
  Warn msg args st =
    Some (if threshold <=? slog.LevelWarn
          then add_written
                 [(w, slog.mkLine k
                        (slog.mkRecord slog.LevelWarn msg (attr_grammar args)))]
                 st
          else st) /\
  Error msg args st =
    Some (if threshold <=? slog.LevelError
          then add_written
                 [(w, slog.mkLine k
                        (slog.mkRecord slog.LevelError msg (attr_grammar args)))]
                 st
          else st).
Proof.
  split; [apply Record_Add_grammar|]. split; [reflexivity|].
  split; [intros a rest; now rewrite !Record_Add_grammar|].
  split; [intros key v rest; now rewrite !Record_Add_grammar|].
  split; [reflexivity|].
  split; [intros v rest; now rewrite !Record_Add_grammar|].
  split; [reflexivity|].
  split; [|split; [|split]].
  - apply (emit_at slog.LevelDebug msg args st k w lv threshold Hlogger Hlevel).
  - apply (emit_at slog.LevelInfo msg args st k w lv threshold Hlogger Hlevel).
  - apply (emit_at slog.LevelWarn msg args st k w lv threshold Hlogger Hlevel).
  - apply (emit_at slog.LevelError msg args st k w lv threshold Hlogger Hlevel).
Qed.

Lemma attributes_follow_grammar_witness :
  Error "boom"
    [slog.any_Attr (slog.mkAttr "id" (slog.any_other 7));
     slog.any_string "k"; slog.any_string "v"; slog.any_other 3;
     slog.any_string "lonely"] initial =
    Some (add_written
            [(os.Stdout,
              slog.mkLine slog.JSONHandler
                (slog.mkRecord slog.LevelError "boom"
                   [slog.mkAttr "id" (slog.any_other 7);
                    slog.mkAttr "k" (slog.any_string "v");
                    slog.mkAttr "!BADKEY" (slog.any_other 3);
                    slog.mkAttr "!BADKEY" (slog.any_string "lonely")]))]
            initial) /\
  Info "quiet"
    [slog.any_string "k"; slog.any_string "v"; slog.any_string "lonely"]
    initial = Some initial.
Proof.
  split.
  - exact (proj2 (proj2 (proj2 (proj2 (proj2 (proj2 (proj2 (proj2 (proj2
             (proj2
                (attributes_follow_grammar initial "boom"
                   [slog.any_Attr (slog.mkAttr "id" (slog.any_other 7));
                    slog.any_string "k"; slog.any_string "v";
                    slog.any_other 3; slog.any_string "lonely"]
                   slog.JSONHandler os.Stdout slog.LevelVar_ptr
                   slog.LevelWarn eq_refl eq_refl))))))))))).
  - exact (proj1 (proj2 (proj2 (proj2 (proj2 (proj2 (proj2 (proj2 (proj2
             (attributes_follow_grammar initial "quiet"
                [slog.any_string "k"; slog.any_string "v";
                 slog.any_string "lonely"]
                slog.JSONHandler os.Stdout slog.LevelVar_ptr
                slog.LevelWarn eq_refl eq_refl)))))))))).
Defined.

(** C8. [Configure] runs its options from first to last, each on the
    state the one before left (running [xs ++ ys] is running [xs] and then
    [ys]; a panic stops the run). From a state with the lock free and the
    gate allocated, text format, then level "info", then destination [D],
    followed by [Error "boom"], returns normally and adds exactly one
    write: to [D] (standard output when [D] is absent or wraps nil),
    rendered by the text handler, at level Error, whose tag is "ERROR",
    with message "boom". *)
Theorem Configure_in_order_then_Error (D : io.Writer) (st : State)
    (old : slog.Level)
    (Hfree : mtx st = false) (Hgate : logLevel st = Some old) :
  (forall xs ys s, Configure (xs ++ ys) s = Configure xs s ≫= Configure ys) /\
  (forall x s, Configure [x] s = x s) /\
  exists st1 st2,
    Configure [WithTextFormat; WithLogLevel "info"; WithOutput D] st = Some st1 /\
    handler st1 = 1 /\
    logLevel st1 = Some slog.LevelInfo /\
    output st1 = (if absent_or_wraps_nil D then os.Stdout else D) /\
    Error "boom" [] st1 = Some st2 /\
    written st2 =
      written st ++
      [(if absent_or_wraps_nil D then os.Stdout else D,
        slog.mkLine slog.TextHandler (slog.mkRecord slog.LevelError "boom" []))] /\
    slog.Level_String slog.LevelError = "ERROR".
Proof.
  split; [intros; apply Configure_app|]. split; [intros; apply Configure_one|].
  cbn [Configure].
  pose proof (format_call_eq CallTextFormat st old eq_refl Hgate) as Ht.
  cbn [option_of format_kind format_code] in Ht. rewrite Ht.
  rewrite (WithLogLevel_eq "info" _ old) by exact Hgate.
  rewrite (WithOutput_eq D _ (level_named "info")) by (try exact Hfree; reflexivity).
  eexists; eexists; split; [reflexivity|].
  repeat split.
Qed.

Lemma Configure_in_order_then_Error_witness :
  exists st1 st2,
    Configure [WithTextFormat; WithLogLevel "info";
               WithOutput (io.dyn (reflect.mkValue reflect.Ptr false 7))]
      initial = Some st1 /\
    Error "boom" [] st1 = Some st2 /\
    written st2 =
      [(io.dyn (reflect.mkValue reflect.Ptr false 7),
        slog.mkLine slog.TextHandler (slog.mkRecord slog.LevelError "boom" []))].
Proof.
  destruct (Configure_in_order_then_Error
              (io.dyn (reflect.mkValue reflect.Ptr false 7)) initial
              slog.LevelWarn eq_refl eq_refl)
    as (_ & _ & st1 & st2 & Hc & _ & _ & _ & He & Hw & _).
  exists st1, st2. repeat split; assumption.
Defined.

(** A format call overwrites what an earlier format call left. *)
Lemma format_call_absorbs c1 c2 st old :
  is_format c1 = true -> is_format c2 = true ->
  logLevel st = Some old ->
  option_of c1 st ≫= option_of c2 = option_of c2 st.
Proof.
  intros H1 H2 Hl.
  rewrite (format_call_eq c1 st old H1 Hl). cbn [mbind option_bind].
  rewrite (format_call_eq c2 _ old H2) by exact Hl.
  rewrite (format_call_eq c2 st old H2 Hl). reflexivity.
Qed.

Lemma Configure_formats_last fs :
  forall f st old,
    forallb is_format fs = true -> is_format f = true ->
    logLevel st = Some old ->
    Configure (map option_of (fs ++ [f])) st = option_of f st.
Proof.
  induction fs as [|c fs IH]; intros f st old Hfs Hf Hl.
  - simpl. destruct (option_of f st); reflexivity.
  - simpl in Hfs. apply andb_true_iff in Hfs as [Hc Hfs].
    cbn [app map Configure].
    rewrite (format_call_eq c st old Hc Hl).
    rewrite (IH f _ old Hfs Hf) by exact Hl.
    rewrite <- (format_call_absorbs c f st old Hc Hf Hl).
    rewrite (format_call_eq c st old Hc Hl). reflexivity.
Qed.

(** C10. With the gate allocated, text format followed by JSON format
    leaves the very state JSON format alone leaves, and both return
    normally. In general, after any sequence of format options the state
    is the one the last of them alone produces: [handler] holds its code
    and the global logger is of its kind. *)
Theorem last_format_wins (st : State) (old : slog.Level)
    (Hgate : logLevel st = Some old) :
  Configure [WithTextFormat; WithJSONFormat] st = Configure [WithJSONFormat] st /\
  (exists st', Configure [WithTextFormat; WithJSONFormat] st = Some st' /\
               handler st' = 0) /\
  forall (fs : list Call) (f : Call),
    forallb is_format fs = true -> is_format f = true ->
    exists st' h,
      Configure (map option_of (fs ++ [f])) st = Some st' /\
      Configure [option_of f] st = Some st' /\
      handler st' = format_code f /\
      globalLogger st' = Some (slog.New h) /\
      slog.Handler_kind h = format_kind f.
Proof.
  assert (Hgen : forall fs f,
    forallb is_format fs = true -> is_format f = true ->
    exists st' h,
      Configure (map option_of (fs ++ [f])) st = Some st' /\
      Configure [option_of f] st = Some st' /\
      handler st' = format_code f /\
      globalLogger st' = Some (slog.New h) /\
      slog.Handler_kind h = format_kind f).
  { intros fs f Hfs Hf.
    rewrite (Configure_formats_last fs f st old Hfs Hf Hgate), Configure_one.
    rewrite (format_call_eq f st old Hf Hgate).
    eexists; eexists; repeat split. }
  split; [|split].
  - change (Configure (map option_of ([CallTextFormat] ++ [CallJSONFormat])) st
            = Configure [option_of CallJSONFormat] st).
    rewrite (Configure_formats_last [CallTextFormat] CallJSONFormat st old
               eq_refl eq_refl Hgate).
    now rewrite Configure_one.
  - destruct (Hgen [CallTextFormat] CallJSONFormat eq_refl eq_refl)
      as (st' & h & Hc & _ & Hh & _).
    exists st'; split; assumption.
  - exact Hgen.
Qed.

Lemma last_format_wins_witness :
  Configure [WithTextFormat; WithJSONFormat] initial =
    Configure [WithJSONFormat] initial /\
  exists st' h,
    Configure [WithJSONFormat; WithJSONFormat; WithTextFormat] initial = Some st' /\
    handler st' = 1 /\
    globalLogger st' = Some (slog.New h) /\
    slog.Handler_kind h = slog.TextHandler.
Proof.
  destruct (last_format_wins initial slog.LevelWarn eq_refl) as (H1 & _ & H3).
  split; [exact H1|].
  destruct (H3 [CallJSONFormat; CallJSONFormat] CallTextFormat eq_refl eq_refl)
    as (st' & h & Hc & _ & Hh & Hg & Hk).
  exists st', h. repeat split; assumption.
Defined.

(** ** Which level an emit call is compared with *)

(** A call that ends in [storeLogger] binds the global logger to the value
    the gate holds at that moment. *)
Lemma rebuild_binds_value c st :
  ready st -> rebuilds c = true ->
  exists st' k w old,
    option_of c st = Some st' /\
    logLevel st = Some old /\ logLevel st' = Some old /\
    globalLogger st' = Some (slog.New (slog.mkHandler k w (slog.Level_value old))) /\
    ready st'.
Proof.
  intros (Hm & [old Hl] & Hg) Hc.
  destruct c as [| |out|name]; try discriminate Hc.
  - rewrite (format_call_eq CallJSONFormat st old eq_refl Hl).
    do 4 eexists; repeat split; simpl; eauto.
  - rewrite (format_call_eq CallTextFormat st old eq_refl Hl).
    do 4 eexists; repeat split; simpl; eauto.
  - cbn [option_of]. rewrite (WithOutput_eq out st old Hm Hl).
    do 4 eexists; repeat split; simpl; eauto.
Qed.

(** [WithLogLevel] leaves the global logger alone. *)
Lemma level_call_keeps_logger name st st' :
  WithLogLevel name st = Some st' -> globalLogger st' = globalLogger st.
Proof.
  unfold WithLogLevel, logLevel_Set.
  destruct (logLevel st); [|discriminate].
  intros [= <-]. reflexivity.
Qed.

(** Once bound to a value, always bound to a value. *)
Lemma option_of_bound c st :
  ready st -> rebuilds c = true \/ bound_to_value st ->
  exists st', option_of c st = Some st' /\ ready st' /\ bound_to_value st'.
Proof.
  intros Hr Hor.
  destruct (rebuilds c) eqn:Hc.
  - destruct (rebuild_binds_value c st Hr Hc)
      as (st' & k & w & old & Ho & _ & _ & Hg & Hr').
    exists st'; repeat split; try apply Hr'; [exact Ho|].
    exists k, w, old; exact Hg.
  - destruct Hor as [Hf|Hb]; [discriminate|].
    destruct (option_of_ready c st Hr) as (st' & Ho & Hr').
    exists st'; repeat split; try apply Hr'; [exact Ho|].
    destruct c; try discriminate Hc.
    unfold bound_to_value.
    rewrite (level_call_keeps_logger _ _ _ Ho). exact Hb.
Qed.

Lemma Configure_bound calls :
  forall st,
    ready st -> existsb rebuilds calls = true \/ bound_to_value st ->
    exists st',
      Configure (map option_of calls) st = Some st' /\
      ready st' /\ bound_to_value st'.
Proof.
  induction calls as [|c calls IH]; intros st Hr Hor.
  - destruct Hor as [Hf|Hb]; [discriminate|].
    exists st; repeat split; try apply Hr; assumption.
  - assert (Hhead : rebuilds c = true \/ bound_to_value st \/
                    (rebuilds c = false /\ existsb rebuilds calls = true)).
    { destruct Hor as [Hex|Hb]; [|auto].
      simpl in Hex. destruct (rebuilds c); auto. }
    cbn [map Configure].
    destruct Hhead as [Hc|[Hb|[Hc Hex]]].
    + destruct (option_of_bound c st Hr (or_introl Hc)) as (st1 & Ho & Hr1 & Hb1).
      rewrite Ho. apply IH; auto.
    + destruct (option_of_bound c st Hr (or_intror Hb)) as (st1 & Ho & Hr1 & Hb1).
      rewrite Ho. apply IH; auto.
    + destruct (option_of_ready c st Hr) as (st1 & Ho & Hr1).
      rewrite Ho. apply IH; auto.
Qed.

(** A logger bound to a value does the same in every state. *)
Lemma bound_to_value_frozen st : bound_to_value st -> copy_frozen st.
Proof.
  intros (k & w & l & Hg) lg calls st' level msg args Hcopy _.
  unfold CopyLogger in Hcopy. rewrite Hg in Hcopy.
  injection Hcopy as <-. reflexivity.
Qed.

(** With the logger of [init] installed, an emit call is compared with the
    gate as it is at the call. *)
Lemma emit_through_gate level msg args st w k gate :
  globalLogger st = Some (slog.New (slog.mkHandler k w slog.LevelVar_ptr)) ->
  logLevel st = Some gate ->
  on_globalLogger (fun l var => slog.Logger_log l var level) msg args st =
    Some (if gate <=? level
          then add_written
                 [(w, slog.mkLine k (slog.mkRecord level msg (attr_grammar args)))]
                 st
          else st).
Proof. intros Hg Hl. apply (emit_at level msg args st k w _ gate Hg Hl). Qed.

(** With a logger from [storeLogger] installed, an emit call is compared
    with the value bound then, whatever the gate holds now. *)
Lemma emit_through_value level msg args st w k bound :
  globalLogger st =
    Some (slog.New (slog.mkHandler k w (slog.Level_value bound))) ->
  on_globalLogger (fun l var => slog.Logger_log l var level) msg args st =
    Some (if bound <=? level
          then add_written
                 [(w, slog.mkLine k (slog.mkRecord level msg (attr_grammar args)))]
                 st
          else st).
Proof. intros Hg. apply (emit_at level msg args st k w _ bound Hg eq_refl). Qed.

(** With the logger of [init] installed and the gate at Info, [Debug] is
    a no-op and [Info], [Warn], [Error] each add one record, with their own
    level and the message given, to the bound writer. *)
Lemma gate_Info_through_init_logger msg args st w k :
  globalLogger st = Some (slog.New (slog.mkHandler k w slog.LevelVar_ptr)) ->
  logLevel st = Some slog.LevelInfo ->
  Debug msg args st = Some st /\
  Info msg args st =
    Some (add_written
            [(w, slog.mkLine k
                   (slog.mkRecord slog.LevelInfo msg (attr_grammar args)))] st) /\
  Warn msg args st =
    Some (add_written
            [(w, slog.mkLine k
                   (slog.mkRecord slog.LevelWarn msg (attr_grammar args)))] st) /\
  Error msg args st =
    Some (add_written
            [(w, slog.mkLine k
                   (slog.mkRecord slog.LevelError msg (attr_grammar args)))] st).
Proof.
  intros Hg Hl. repeat split.
  - apply (emit_through_gate slog.LevelDebug msg args st w k _ Hg Hl).
  - apply (emit_through_gate slog.LevelInfo msg args st w k _ Hg Hl).
  - apply (emit_through_gate slog.LevelWarn msg args st w k _ Hg Hl).
  - apply (emit_through_gate slog.LevelError msg args st w k _ Hg Hl).
Qed.

(** C1. The code at the input of the package's own test: from the
    defaults, [Configure(WithOutput(w))], then
    [Configure(WithLogLevel("debug"))], then [Debug("globalLogger")]. Both
    [Configure] calls return; the gate then holds Debug, the global logger
    is still the one [WithOutput] built, bound to the value Warn, and the
    [Debug] call writes nothing. With no rebuild before it, the same
    severity change does let the record through. *)
Theorem severity_change_after_rebuild_is_lost :
  let w := io.dyn (reflect.mkValue reflect.Ptr false 7) in
  exists st1 st2,
    Configure [WithOutput w] initial = Some st1 /\
    Configure [WithLogLevel "debug"] st1 = Some st2 /\
    logLevel st2 = Some slog.LevelDebug /\
    globalLogger st2 = globalLogger st1 /\
    globalLogger st2 =
      Some (slog.New (slog.NewJSONHandler w (slog.Level_value slog.LevelWarn))) /\
    Debug "globalLogger" [] st2 = Some st2 /\
    written st2 = [] /\
    (Configure [WithLogLevel "debug"] initial ≫= Debug "globalLogger" [])
      ≫= (fun st => Some (written st)) =
      Some [(os.Stdout,
             slog.mkLine slog.JSONHandler
               (slog.mkRecord slog.LevelDebug "globalLogger" []))].
Proof. intros w. do 2 eexists. repeat split. Qed.

(** C7. The code at the input of the README's first example: from the
    defaults, [Configure(WithJSONFormat(), WithLogLevel("info"))]. The
    gate then holds Info, yet [Info] writes nothing, as [Debug] does;
    [Warn] and [Error] each write one JSON record with their level and
    message to standard output. *)
Theorem Info_dropped_at_gate_Info :
  exists st,
    Configure [WithJSONFormat; WithLogLevel "info"] initial = Some st /\
    logLevel st = Some slog.LevelInfo /\
    Debug "This won't appear due to log level" [] st = Some st /\
    Info "Starting http server" [] st = Some st /\
    Warn "careful" [] st =
      Some (add_written
              [(os.Stdout,
                slog.mkLine slog.JSONHandler
                  (slog.mkRecord slog.LevelWarn "careful" []))] st) /\
    Error "An error occurred" [] st =
      Some (add_written
              [(os.Stdout,
                slog.mkLine slog.JSONHandler
                  (slog.mkRecord slog.LevelError "An error occurred" []))] st) /\
    written st = [].
Proof. eexists. repeat split. Qed.

(** C2, as stated, fails for the logger of [init]: copied at the
    defaults, it lets a Debug record through after [WithLogLevel "debug"],
    and did not before. *)
Lemma copy_of_init_logger_follows_gate : ~ copy_frozen initial.
Proof.
  intros H.
  specialize (H (slog.New (slog.NewJSONHandler os.Stdout slog.LevelVar_ptr))
                [CallLogLevel "debug"]
                (set_logLevel (Some slog.LevelDebug) initial)
                slog.LevelDebug "copyLogger" [] eq_refl eq_refl).
  discriminate H.
Qed.

(** C2, amended. [CopyLogger] returns what the global logger cell holds.
    Once some format or destination option has run since the defaults, the
    cell holds a logger; every further sequence of options returns; and a
    copy of that logger, called directly, writes the same after any such
    sequence as at the copy. *)
Theorem copy_of_rebuilt_logger_frozen (pre : list Call) (st : State)
    (Hrebuilt : existsb rebuilds pre = true)
    (Hpre : Configure (map option_of pre) initial = Some st) :
  CopyLogger st = globalLogger st /\
  is_Some (CopyLogger st) /\
  (forall calls, is_Some (Configure (map option_of calls) st)) /\
  copy_frozen st.
Proof.
  destruct (Configure_bound pre initial ready_initial (or_introl Hrebuilt))
    as (st' & Hc & Hr & Hb).
  rewrite Hpre in Hc. injection Hc as <-.
  split; [reflexivity|]. split; [apply Hr|]. split.
  - intros calls. destruct (Configure_ready calls st Hr) as (st2 & -> & _).
    eauto.
  - apply bound_to_value_frozen, Hb.
Qed.

Lemma copy_of_rebuilt_logger_frozen_witness :
  existsb rebuilds [CallOutput io.nil; CallLogLevel "info"] = true /\
  CopyLogger
    (set_logLevel (Some slog.LevelInfo)
       (set_globalLogger
          (slog.New (slog.NewJSONHandler os.Stdout
                       (slog.Level_value slog.LevelWarn)))
          initial)) =
    Some (slog.New (slog.NewJSONHandler os.Stdout
                      (slog.Level_value slog.LevelWarn))) /\
  copy_frozen
    (set_logLevel (Some slog.LevelInfo)
       (set_globalLogger
          (slog.New (slog.NewJSONHandler os.Stdout
                       (slog.Level_value slog.LevelWarn)))
          initial)).
Proof.
  destruct (copy_of_rebuilt_logger_frozen
              [CallOutput io.nil; CallLogLevel "info"]
              (set_logLevel (Some slog.LevelInfo)
                 (set_globalLogger
                    (slog.New (slog.NewJSONHandler os.Stdout
                                 (slog.Level_value slog.LevelWarn)))
                    initial))
              eq_refl eq_refl)
    as (Hcopy & _ & _ & Hfrozen).
  split; [reflexivity|]. split; [exact Hcopy | exact Hfrozen].
Defined.

(** * Further properties of package [log] *)

(** ** What every call keeps *)

Lemma level_named_named name : named (level_named name).
Proof.
  unfold named, level_named.
  destruct (String.eqb name "debug"); [auto|].
  destruct (String.eqb name "info"); [auto|].
  destruct (String.eqb name "error"); auto.
Qed.

Lemma destination_for_usable out :
  absent_or_wraps_nil (destination_for out) = false.
Proof.
  unfold destination_for.
  destruct (absent_or_wraps_nil out) eqn:H; [reflexivity | exact H].
Qed.

Lemma emitter_of_eq e msg args st :
  emitter_of e msg args st =
    on_globalLogger (fun l var => slog.Logger_log l var (Emitter_level e))
      msg args st.
Proof. destruct e; reflexivity. Qed.

(** What an emit call that returns has done: nothing, or one line added,
    with the level of the function, the message and the attributes of the
    grammar, on the writer and in the format of the installed logger. *)
Lemma emitter_of_inv e msg args st st' :
  emitter_of e msg args st = Some st' ->
  exists k w lv threshold,
    globalLogger st = Some (slog.New (slog.mkHandler k w lv)) /\
    slog.Leveler_Level lv (logLevel st) = Some threshold /\
    st' = (if threshold <=? Emitter_level e
           then add_written
                  [(w, slog.mkLine k
                         (slog.mkRecord (Emitter_level e) msg (attr_grammar args)))]
                  st
           else st).
Proof.
  rewrite emitter_of_eq. intros H.
  destruct (globalLogger st) as [[[k w lv]]|] eqn:Hg.
  - destruct (slog.Leveler_Level lv (logLevel st)) as [t|] eqn:Ht.
    + rewrite (emit_at _ msg args st k w lv t Hg Ht) in H.
      injection H as <-. exists k, w, lv, t. auto.
    + unfold on_globalLogger in H. rewrite Hg in H.
      cbn [mbind option_bind] in H.
      unfold slog.Logger_log, slog.Handler_Enabled in H.
      cbn [slog.Logger_Handler slog.Handler_Level] in H.
      rewrite Ht in H. discriminate H.
  - unfold on_globalLogger in H. rewrite Hg in H. discriminate H.
Qed.

Lemma option_of_settled c st st' :
  ready st -> settled st -> option_of c st = Some st' -> settled st'.
Proof.
  intros (Hm & _ & _) (Hh & Ho & (gate & Hl & Hn) & lv & Hg & Hlv) Hc.
  destruct c as [| |out|name].
  - rewrite (format_call_eq CallJSONFormat st gate eq_refl Hl) in Hc.
    injection Hc as <-. repeat split; simpl; eauto.
  - rewrite (format_call_eq CallTextFormat st gate eq_refl Hl) in Hc.
    injection Hc as <-. repeat split; simpl; eauto.
  - cbn [option_of] in Hc. rewrite (WithOutput_eq out st gate Hm Hl) in Hc.
    injection Hc as <-. repeat split; simpl; eauto.
    apply destination_for_usable.
  - cbn [option_of] in Hc. rewrite (WithLogLevel_eq name st gate Hl) in Hc.
    injection Hc as <-. repeat split; simpl; eauto.
    exists (level_named name); split; [reflexivity | apply level_named_named].
Qed.

Lemma Configure_settled calls :
  forall st,
    ready st -> settled st ->
    exists st',
      Configure (map option_of calls) st = Some st' /\ ready st' /\ settled st'.
Proof.
  induction calls as [|c calls IH]; intros st Hr Hs.
  - exists st; auto.
  - destruct (option_of_ready c st Hr) as (st1 & Hc & Hr1).
    pose proof (option_of_settled c st st1 Hr Hs Hc) as Hs1.
    destruct (IH st1 Hr1 Hs1) as (st2 & Hcs & Hr2 & Hs2).
    exists st2. cbn [map Configure]. rewrite Hc. auto.
Qed.

Lemma emitter_of_settled e msg args st :
  ready st -> settled st ->
  exists st',
    emitter_of e msg args st = Some st' /\ ready st' /\ settled st'.
Proof.
  intros Hr Hs.
  pose proof Hr as (Hm & [gate Hl] & _).
  pose proof Hs as (_ & _ & _ & lv & Hg & _).
  assert (Ht : exists t, slog.Leveler_Level lv (logLevel st) = Some t).
  { destruct lv; simpl; eauto. }
  destruct Ht as [t Ht].
  rewrite emitter_of_eq, (emit_at _ msg args st _ _ lv t Hg Ht).
  eexists; split; [reflexivity|].
  destruct (t <=? Emitter_level e); [|auto].
  destruct st; split; [exact Hr | exact Hs].
Qed.

Lemma settled_initial : settled initial.
Proof.
  repeat split; simpl; auto.
  - exists slog.LevelWarn. split; [reflexivity|]. unfold named; auto.
  - exists slog.LevelVar_ptr. split; [reflexivity | exact I].
Qed.

Lemma run_program_settled p :
  forall st,
    ready st -> settled st ->
    exists st', run_program p st = Some st' /\ ready st' /\ settled st'.
Proof.
  induction p as [|a p IH]; intros st Hr Hs.
  - exists st; auto.
  - assert (H1 : exists st1, run_call a st = Some st1 /\ ready st1 /\ settled st1).
    { destruct a as [calls|e msg args]; simpl.
      - apply Configure_settled; assumption.
      - apply emitter_of_settled; assumption. }
    destruct H1 as (st1 & Ha & Hr1 & Hs1).
    destruct (IH st1 Hr1 Hs1) as (st2 & Hp & Hr2 & Hs2).
    exists st2. cbn [run_program]. rewrite Ha. auto.
Qed.

Lemma program_always_returns_aux (p : list ApiCall) :
  exists st, run_program p initial = Some st.
Proof.
  destruct (run_program_settled p initial ready_initial settled_initial)
    as (st & Hp & _).
  exists st; exact Hp.
Qed.

(** X1. Whatever sequence of [Configure] calls (with any of the four
    options, in any number and order) and emit calls a single thread
    makes after [init], every call returns: none panics and none waits on
    the lock. Afterwards the lock is free and neither [logLevel] nor
    [globalLogger] is nil. *)
Theorem program_always_returns (p : list ApiCall) :
  exists st,
    run_program p initial = Some st /\
    mtx st = false /\
    is_Some (logLevel st) /\
    is_Some (globalLogger st).
Proof.
  destruct (run_program_settled p initial ready_initial settled_initial)
    as (st & Hp & (Hm & Hl & Hg) & _).
  exists st; auto.
Qed.

(** X2. After any such sequence of calls the installed logger agrees with
    the settings: [handler] holds 0 or 1, the logger is a JSON handler in
    the first case and a text handler in the second, and it writes to the
    destination in [output]. *)
Theorem program_logger_matches_settings (p : list ApiCall) :
  exists st h,
    run_program p initial = Some st /\
    globalLogger st = Some (slog.New h) /\
    slog.Handler_w h = output st /\
    (handler st = 0 /\ slog.Handler_kind h = slog.JSONHandler \/
     handler st = 1 /\ slog.Handler_kind h = slog.TextHandler).
Proof.
  destruct (run_program_settled p initial ready_initial settled_initial)
    as (st & Hp & _ & (Hh & _ & _ & lv & Hg & _)).
  eexists st, _. split; [exact Hp|]. split; [exact Hg|].
  split; [reflexivity|].
  destruct Hh as [-> | ->]; simpl; auto.
Qed.

(** X3. After any such sequence of calls the destination is a usable
    sink: [isNotNilOrNilPointer] accepts what [output] holds, so the
    logger is never bound to a nil writer or to a nil pointer, whatever
    was passed to [WithOutput]. *)
Theorem program_destination_usable (p : list ApiCall) :
  exists st,
    run_program p initial = Some st /\
    isNotNilOrNilPointer (output st) = Some true /\
    output st <> io.nil.
Proof.
  destruct (run_program_settled p initial ready_initial settled_initial)
    as (st & Hp & _ & (_ & Ho & _)).
  exists st. split; [exact Hp|]. split.
  - rewrite isNotNilOrNilPointer_spec, Ho. reflexivity.
  - intros Hnil. rewrite Hnil in Ho. discriminate Ho.
Qed.


(** ** What reaches the sinks *)

(** No option writes, whatever state it starts in. *)
Lemma option_of_written c st st' :
  option_of c st = Some st' -> written st' = written st.
Proof.
  destruct st as [g lv o h m w].
  destruct c as [| |out|name]; cbn [option_of].
  - unfold WithJSONFormat, logLevel_Level. cbn [logLevel set_handler].
    destruct lv as [l|]; [|discriminate]. cbn [mbind option_bind].
    rewrite storeLogger_returns. intros [= <-]. reflexivity.
  - unfold WithTextFormat, logLevel_Level. cbn [logLevel set_handler].
    destruct lv as [l|]; [|discriminate]. cbn [mbind option_bind].
    rewrite storeLogger_returns. intros [= <-]. reflexivity.
  - unfold WithOutput, mtx_Lock, logLevel_Level. cbn [mtx].
    destruct m; [discriminate|]. cbn [mbind option_bind].
    rewrite isNotNilOrNilPointer_spec. cbn [mbind option_bind].
    destruct (negb (absent_or_wraps_nil out));
      cbn [set_output set_mtx logLevel];
      (destruct lv as [l|]; [|discriminate]); cbn [mbind option_bind];
      rewrite storeLogger_returns; cbn [mbind option_bind];
      unfold mtx_Unlock; cbn; intros [= <-]; reflexivity.
  - unfold WithLogLevel, logLevel_Set. cbn [logLevel].
    destruct lv as [l|]; [|discriminate]. intros [= <-]. reflexivity.
Qed.

Lemma Configure_written calls :
  forall st st',
    Configure (map option_of calls) st = Some st' -> written st' = written st.
Proof.
  induction calls as [|c calls IH]; intros st st' H.
  - injection H as <-. reflexivity.
  - cbn [map Configure] in H.
    destruct (option_of c st) as [st1|] eqn:Hc; [|discriminate].
    rewrite (IH st1 st' H). apply (option_of_written c st st1 Hc).
Qed.

Lemma run_program_written p :
  forall st st',
    run_program p st = Some st' ->
    exists ws,
      written st' = written st ++ ws /\
      (length ws <= emit_calls p)%nat /\
      Forall (emitted_by p) ws.
Proof.
  induction p as [|a p IH]; intros st st' H.
  - injection H as <-. exists []. rewrite app_nil_r. repeat split; auto.
  - cbn [run_program] in H.
    destruct (run_call a st) as [st1|] eqn:Ha; [|discriminate].
    destruct (IH st1 st' H) as (ws & Hw & Hlen & Hall).
    assert (Htail : Forall (emitted_by (a :: p)) ws).
    { eapply Forall_impl; [exact Hall|].
      intros wl (e & msg & args & Hin & Hrec).
      exists e, msg, args. split; [right; exact Hin | exact Hrec]. }
    destruct a as [calls|e msg args]; cbn [run_call] in Ha.
    + exists ws. rewrite Hw, (Configure_written calls st st1 Ha).
      repeat split; auto.
    + destruct (emitter_of_inv e msg args st st1 Ha)
        as (k & w & lv & t & _ & _ & ->).
      destruct (t <=? Emitter_level e).
      * eexists (_ :: ws). split; [|split].
        -- rewrite Hw. destruct st; simpl. rewrite <- app_assoc. reflexivity.
        -- simpl. lia.
        -- constructor; [|exact Htail].
           exists e, msg, args. split; [left; reflexivity | reflexivity].
      * exists ws. repeat split; auto. simpl. lia.
Qed.

(** X5. Only emit calls write: after any sequence of calls made after
    [init], the sinks have received at most as many lines as the program
    has emit calls, and every line carries the level, the message and the
    grammar's attributes of one of them. In particular configuration
    alone never writes a record. *)
Theorem program_writes_only_what_is_emitted (p : list ApiCall) :
  exists st,
    run_program p initial = Some st /\
    (length (written st) <= emit_calls p)%nat /\
    Forall (emitted_by p) (written st) /\
    (forallb (fun a => negb (is_emit a)) p = true -> written st = []).
Proof.
  destruct (program_always_returns_aux p) as (st & Hp).
  destruct (run_program_written p initial st Hp) as (ws & Hw & Hlen & Hall).
  simpl in Hw. subst ws.
  exists st. repeat split; auto.
  intros Hno.
  assert (Hz : emit_calls p = 0%nat).
  { clear -Hno. induction p as [|a p IH]; [reflexivity|].
    simpl in Hno. apply andb_true_iff in Hno as [Ha Hp].
    simpl. destruct (is_emit a); [discriminate | auto]. }
  rewrite Hz in Hlen. destruct (written st); [reflexivity | simpl in Hlen; lia].
Qed.

(** X6. An emit call that returns leaves every setting as it was: the
    installed logger, the gate, the destination, the format and the lock.
    It adds nothing, or one line, to what the sinks have received. *)
Theorem emit_keeps_settings (e : Emitter) (msg : string)
    (args : list slog.any) (st st' : State)
    (Hcall : emitter_of e msg args st = Some st') :
  globalLogger st' = globalLogger st /\
  logLevel st' = logLevel st /\
  output st' = output st /\
  handler st' = handler st /\
  mtx st' = mtx st /\
  exists ws, written st' = written st ++ ws /\ (length ws <= 1)%nat.
Proof.
  destruct (emitter_of_inv e msg args st st' Hcall)
    as (k & w & lv & t & _ & _ & ->).
  destruct (t <=? Emitter_level e).
  - repeat split. eexists; split; [reflexivity | simpl; lia].
  - repeat split. exists []. rewrite app_nil_r. split; [reflexivity | simpl; lia].
Qed.

Lemma emit_keeps_settings_witness :
  exists st',
    Error "boom" [] initial = Some st' /\
    globalLogger st' = globalLogger initial /\
    logLevel st' = Some slog.LevelWarn /\
    output st' = os.Stdout /\
    handler st' = 0 /\
    mtx st' = false.
Proof.
  eexists. split; [reflexivity|].
  destruct (emit_keeps_settings EError "boom" [] initial _ eq_refl)
    as (Hg & Hl & Ho & Hh & Hm & _).
  repeat split; assumption.
Defined.

(** X7. The filter is monotone in the level: if an emit function writes
    in some state, every emit function of the same or a higher level
    writes in that state too, exactly one line with its own level and
    message. So [Error] is the last to be silenced and [Debug] the
    first. *)
Theorem emit_monotone_in_level (e1 e2 : Emitter) (st st1 : State)
    (msg1 msg2 : string) (args1 args2 : list slog.any)
    (Hle : Emitter_level e1 <= Emitter_level e2)
    (Hcall : emitter_of e1 msg1 args1 st = Some st1)
    (Hwrote : written st1 <> written st) :
  exists st2 w k,
    emitter_of e2 msg2 args2 st = Some st2 /\
    written st2 =
      written st ++
      [(w, slog.mkLine k
             (slog.mkRecord (Emitter_level e2) msg2 (attr_grammar args2)))].
Proof.
  destruct (emitter_of_inv e1 msg1 args1 st st1 Hcall)
    as (k & w & lv & t & Hg & Ht & ->).
  destruct (t <=? Emitter_level e1) eqn:Hcmp; [|contradiction].
  apply Z.leb_le in Hcmp.
  rewrite emitter_of_eq, (emit_at _ msg2 args2 st k w lv t Hg Ht).
  assert (H2 : (t <=? Emitter_level e2) = true) by (apply Z.leb_le; lia).
  rewrite H2. eexists _, w, k. split; reflexivity.
Qed.

Lemma emit_monotone_in_level_witness :
  exists st2 w k,
    Error "second" [slog.any_string "lonely"] initial = Some st2 /\
    written st2 =
      [(w, slog.mkLine k
             (slog.mkRecord slog.LevelError "second"
                [slog.mkAttr "!BADKEY" (slog.any_string "lonely")]))].
Proof.
  apply (emit_monotone_in_level EWarn EError initial
           (add_written
              [(os.Stdout,
                slog.mkLine slog.JSONHandler
                  (slog.mkRecord slog.LevelWarn "first" []))] initial)
           "first" "second" [] [slog.any_string "lonely"]).
  - cbv; discriminate.
  - reflexivity.
  - simpl; discriminate.
Defined.

(** ** Severity changes that do reach the emit functions *)

(** X8. A severity change followed by any option that rebuilds the logger
    (a format or a destination option) takes effect: from a state with
    the lock free and the pointers set, after
    [Configure(WithLogLevel(name), c)] the gate holds the level of [name]
    and each emit function writes, to the current destination, exactly
    when its level is at or above that level. *)
Theorem level_then_rebuild_takes_effect (name : string) (c : Call)
    (st : State) (Hready : ready st) (Hc : rebuilds c = true) :
  exists st' k,
    Configure [WithLogLevel name; option_of c] st = Some st' /\
    logLevel st' = Some (level_named name) /\
    forall e msg args,
      emitter_of e msg args st' =
        Some (if level_named name <=? Emitter_level e
              then add_written
                     [(output st',
                       slog.mkLine k
                         (slog.mkRecord (Emitter_level e) msg
                            (attr_grammar args)))] st'
              else st').
Proof.
  destruct Hready as (Hm & [old Hl] & Hg).
  cbn [Configure]. rewrite (WithLogLevel_eq name st old Hl).
  set (st1 := set_logLevel (Some (level_named name)) st).
  assert (Hl1 : logLevel st1 = Some (level_named name)) by reflexivity.
  assert (Hm1 : mtx st1 = false) by exact Hm.
  destruct c as [| |out|lvl]; try discriminate Hc.
  - rewrite (format_call_eq CallJSONFormat st1 _ eq_refl Hl1).
    eexists _, _. split; [reflexivity|]. split; [reflexivity|].
    intros e msg args. rewrite emitter_of_eq.
    erewrite emit_through_value by reflexivity. reflexivity.
  - rewrite (format_call_eq CallTextFormat st1 _ eq_refl Hl1).
    eexists _, _. split; [reflexivity|]. split; [reflexivity|].
    intros e msg args. rewrite emitter_of_eq.
    erewrite emit_through_value by reflexivity. reflexivity.
  - cbn [option_of]. rewrite (WithOutput_eq out st1 _ Hm1 Hl1).
    eexists _, _. split; [reflexivity|]. split; [reflexivity|].
    intros e msg args. rewrite emitter_of_eq.
    erewrite emit_through_value by reflexivity. reflexivity.
Qed.

Lemma level_then_rebuild_takes_effect_witness :
  exists st' k,
    Configure [WithLogLevel "debug"; WithTextFormat] initial = Some st' /\
    logLevel st' = Some slog.LevelDebug /\
    Debug "seen" [] st' =
      Some (add_written
              [(output st',
                slog.mkLine k (slog.mkRecord slog.LevelDebug "seen" []))] st').
Proof.
  destruct (level_then_rebuild_takes_effect "debug" CallTextFormat initial
              ready_initial eq_refl) as (st' & k & Hc & Hl & Hemit).
  exists st', k. split; [exact Hc|]. split; [exact Hl|].
  exact (Hemit EDebug "seen" []).
Defined.

(** A run of severity changes leaves what the last one leaves. *)
Lemma Configure_levels names :
  forall name st old,
    logLevel st = Some old ->
    Configure (map WithLogLevel (names ++ [name])) st =
      Some (set_logLevel (Some (level_named name)) st).
Proof.
  induction names as [|n names IH]; intros name st old Hl.
  - cbn [app map Configure]. rewrite (WithLogLevel_eq name st old Hl).
    reflexivity.
  - cbn [app map Configure]. rewrite (WithLogLevel_eq n st old Hl).
    rewrite (IH name _ (level_named n)) by reflexivity.
    destruct st; reflexivity.
Qed.

(** X9. While the logger of [init] is installed (no format or
    destination option has run), severity changes reach the emit
    functions at once: after any run of [WithLogLevel] options from the
    defaults, each emit function writes a JSON line to standard output
    exactly when its level is at or above the level of the last name. *)
Theorem levels_reach_init_logger (names : list string) (name : string) :
  exists st',
    Configure (map WithLogLevel (names ++ [name])) initial = Some st' /\
    logLevel st' = Some (level_named name) /\
    globalLogger st' = globalLogger initial /\
    forall e msg args,
      emitter_of e msg args st' =
        Some (if level_named name <=? Emitter_level e
              then add_written
                     [(os.Stdout,
                       slog.mkLine slog.JSONHandler
                         (slog.mkRecord (Emitter_level e) msg
                            (attr_grammar args)))] st'
              else st').
Proof.
  rewrite (Configure_levels names name initial slog.LevelWarn eq_refl).
  eexists. split; [reflexivity|]. split; [reflexivity|].
  split; [reflexivity|].
  intros e msg args. rewrite emitter_of_eq.
  erewrite emit_through_gate by reflexivity. reflexivity.
Qed.

(** X10. Of several severity options in a row the last one wins, and the
    run changes nothing but the gate: with the gate allocated, a run of
    [WithLogLevel] options leaves the state its last option alone
    leaves. *)
Theorem last_level_wins (names : list string) (name : string) (st : State)
    (old : slog.Level) (Hgate : logLevel st = Some old) :
  Configure (map WithLogLevel (names ++ [name])) st = WithLogLevel name st /\
  exists st',
    WithLogLevel name st = Some st' /\
    logLevel st' = Some (level_named name) /\
    globalLogger st' = globalLogger st /\
    output st' = output st /\
    handler st' = handler st.
Proof.
  rewrite (Configure_levels names name st old Hgate).
  rewrite (WithLogLevel_eq name st old Hgate).
  split; [reflexivity|]. eexists; repeat split.
Qed.

Lemma last_level_wins_witness :
  Configure (map WithLogLevel (["error"; "nonsense"] ++ ["debug"])) initial =
    WithLogLevel "debug" initial.
Proof.
  exact (proj1 (last_level_wins ["error"; "nonsense"] "debug" initial
                  slog.LevelWarn eq_refl)).
Defined.

(** ** How destination and format options combine *)

Lemma WithOutput_absorbs a b st :
  ready st -> WithOutput a st ≫= WithOutput b = WithOutput b st.
Proof.
  intros (Hm & [old Hl] & _).
  rewrite (WithOutput_eq a st old Hm Hl). cbn [mbind option_bind].
  rewrite (WithOutput_eq b _ old) by (try exact Hm; exact Hl).
  rewrite (WithOutput_eq b st old Hm Hl).
  destruct st; reflexivity.
Qed.

Lemma Configure_outputs outs :
  forall out st,
    ready st ->
    Configure (map WithOutput (outs ++ [out])) st = WithOutput out st.
Proof.
  induction outs as [|a outs IH]; intros out st Hr.
  - cbn [app map]. apply Configure_one.
  - cbn [app map Configure].
    destruct (option_of_ready (CallOutput a) st Hr) as (st1 & Ha & Hr1).
    cbn [option_of] in Ha. rewrite Ha, (IH out st1 Hr1).
    rewrite <- (WithOutput_absorbs a out st Hr), Ha. reflexivity.
Qed.

(** X11. Of several destination options in a row the last one wins: with
    the lock free and the pointers set, a run of [WithOutput] options
    leaves the state its last option alone leaves, bound to the last sink
    or to standard output if that one is absent or wraps nil, whatever
    the earlier sinks were. *)
Theorem last_output_wins (outs : list io.Writer) (out : io.Writer)
    (st : State) (Hready : ready st) :
  Configure (map WithOutput (outs ++ [out])) st = WithOutput out st /\
  exists st',
    WithOutput out st = Some st' /\
    output st' = destination_for out /\
    handler st' = handler st /\
    logLevel st' = logLevel st.
Proof.
  split; [apply Configure_outputs, Hready|].
  destruct Hready as (Hm & [old Hl] & _).
  rewrite (WithOutput_eq out st old Hm Hl). eexists; repeat split.
Qed.

Lemma last_output_wins_witness :
  Configure
    (map WithOutput
       ([io.dyn (reflect.mkValue reflect.Ptr false 7); io.nil] ++
        [io.dyn (reflect.mkValue reflect.Struct false 8)])) initial =
    WithOutput (io.dyn (reflect.mkValue reflect.Struct false 8)) initial.
Proof.
  exact (proj1 (last_output_wins
                  [io.dyn (reflect.mkValue reflect.Ptr false 7); io.nil]
                  (io.dyn (reflect.mkValue reflect.Struct false 8))
                  initial ready_initial)).
Defined.

(** X12. A format option and a destination option commute: with the lock
    free and the pointers set, applying them in either order leaves the
    same state, a logger of the chosen format bound to the chosen
    destination. *)
Theorem format_and_output_commute (f : Call) (out : io.Writer) (st : State)
    (Hf : is_format f = true) (Hready : ready st) :
  Configure [option_of f; WithOutput out] st =
    Configure [WithOutput out; option_of f] st /\
  exists st' lv,
    Configure [option_of f; WithOutput out] st = Some st' /\
    handler st' = format_code f /\
    output st' = destination_for out /\
    globalLogger st' =
      Some (slog.New (slog.mkHandler (format_kind f) (destination_for out) lv)).
Proof.
  destruct Hready as (Hm & [old Hl] & _).
  cbn [Configure].
  rewrite (format_call_eq f st old Hf Hl).
  rewrite (WithOutput_eq out st old Hm Hl).
  rewrite (WithOutput_eq out _ old) by (try exact Hm; exact Hl).
  rewrite (format_call_eq f _ old Hf) by exact Hl.
  destruct st as [g lv o h m w].
  destruct f; try discriminate Hf; (split; [reflexivity|]);
    eexists _, _; repeat split.
Qed.

Lemma format_and_output_commute_witness :
  Configure [WithTextFormat; WithOutput io.nil] initial =
    Configure [WithOutput io.nil; WithTextFormat] initial.
Proof.
  exact (proj1 (format_and_output_commute CallTextFormat io.nil initial
                  eq_refl ready_initial)).
Defined.

(** ** The test helper *)

(** X13. [resetLoggerConf] undoes any configuration: after any sequence
    of [Configure] and emit calls made after [init], it returns and puts
    every package variable back to what [init] left (gate Warn, JSON,
    standard output, a logger bound to the gate itself and so following
    later severity changes again, lock free); only what the sinks have
    already received stays. *)
Theorem resetLoggerConf_restores_defaults (p : list ApiCall) :
  exists st,
    run_program p initial = Some st /\
    resetLoggerConf st = Some (add_written (written st) initial).
Proof.
  destruct (run_program_settled p initial ready_initial settled_initial)
    as (st & Hp & (Hm & [gate Hl] & _) & _).
  exists st. split; [exact Hp|].
  destruct st as [g lv o h m w]. simpl in Hm, Hl. subst m lv.
  reflexivity.
Qed.

(** ** Where a record goes *)

(** X16. After any sequence of [Configure] and emit calls made after
    [init], an emit call returns and either writes nothing or writes one
    line to the destination [output] holds at that moment, in the format
    [handler] selects at that moment (JSON for 0, text otherwise), with
    the level of the function called, the message given and the
    attributes of the grammar. *)
Theorem record_goes_to_current_destination (p : list ApiCall)
    (e : Emitter) (msg : string) (args : list slog.any) :
  exists st st',
    run_program p initial = Some st /\
    emitter_of e msg args st = Some st' /\
    (written st' = written st \/
     written st' =
       written st ++
       [(output st,
         slog.mkLine
           (if handler st =? 0 then slog.JSONHandler else slog.TextHandler)
           (slog.mkRecord (Emitter_level e) msg (attr_grammar args)))]).
Proof.
  destruct (run_program_settled p initial ready_initial settled_initial)
    as (st & Hp & Hr & Hs).
  destruct (emitter_of_settled e msg args st Hr Hs) as (st' & He & _).
  exists st, st'. split; [exact Hp|]. split; [exact He|].
  destruct Hs as (_ & _ & _ & lv & Hg & _).
  destruct (emitter_of_inv e msg args st st' He)
    as (k & w & lv' & t & Hg' & _ & ->).
  rewrite Hg in Hg'. injection Hg' as <- <- <-.
  destruct (t <=? Emitter_level e); [right | left]; reflexivity.
Qed.

(** * Properties of package [router] *)

Section GinFactoryFacts.

Context {HandlerFunc Engine : Type}.
Context (gin_Recovery : HandlerFunc).
Context (gin_New : Engine).
Context (Engine_Use : Engine -> HandlerFunc -> Engine).

Local Abbreviation Factory := (@router.GinFactory HandlerFunc Engine).
Local Abbreviation Op := (@router.Op HandlerFunc Engine).
Local Abbreviation NewGinFactory := (@router.NewGinFactory HandlerFunc Engine gin_Recovery).
Local Abbreviation CreateRouter := (router.CreateRouter gin_New Engine_Use).

(** Each method call appends what it is given and drops nothing. *)
Lemma run_ops_lists (ops : list Op) :
  forall g : Factory,
    router.middleware (router.run_ops ops g) =
      router.middleware g ++ concat (map router.middleware_given ops) /\
    router.handlers (router.run_ops ops g) =
      router.handlers g ++ concat (map router.handlers_given ops).
Proof.
  induction ops as [|o ops IH]; intros g.
  - simpl. now rewrite !app_nil_r.
  - unfold router.run_ops. cbn [fold_left]. fold (router.run_ops ops).
    destruct (IH (router.run_op o g)) as [Hm Hh].
    unfold router.run_ops in Hm, Hh |- *. rewrite Hm, Hh.
    destruct o; cbn [router.run_op router.AddMiddleware router.ResetMiddleware
                     router.AddHandlers router.middleware router.handlers
                     router.middleware_given router.handlers_given
                     map concat];
      rewrite ?app_nil_l, ?app_nil_r, <- ?app_assoc; split; reflexivity.
Qed.

(** X14. A factory never loses anything: after any sequence of
    [AddMiddleware], [ResetMiddleware] and [AddHandlers] calls on a new
    factory, its middleware is [gin.Recovery()] followed by all the
    middleware given, in call order, and its handlers are all the
    handlers given, in call order. [ResetMiddleware] appends like
    [AddMiddleware]: it removes neither the recovery middleware nor
    anything added before. *)
Theorem factory_keeps_everything_in_order (ops : list Op) :
  router.middleware (router.run_ops ops NewGinFactory) =
    gin_Recovery :: concat (map router.middleware_given ops) /\
  router.handlers (router.run_ops ops NewGinFactory) =
    concat (map router.handlers_given ops) /\
  forall (ms : list HandlerFunc) (g : Factory),
    router.ResetMiddleware ms g = router.AddMiddleware ms g /\
    router.middleware (router.ResetMiddleware ms g) = router.middleware g ++ ms.
Proof.
  destruct (run_ops_lists ops NewGinFactory) as [Hm Hh].
  split; [exact Hm|]. split; [exact Hh|].
  intros ms g. split; reflexivity.
Qed.

(** X15. [CreateRouter] registers all middleware before it runs any
    handler, however the calls that added them were interleaved: the
    router of a factory built by any sequence of calls is a new engine on
    which [Use] was called with [gin.Recovery()] and then with every
    middleware given, in call order, and to which then every handler
    given was applied, in call order. *)
Theorem CreateRouter_middleware_before_handlers (ops : list Op) :
  CreateRouter (router.run_ops ops NewGinFactory) =
    fold_left (fun r h => h r)
      (concat (map router.handlers_given ops))
      (fold_left Engine_Use
         (concat (map router.middleware_given ops))
         (Engine_Use gin_New gin_Recovery)).
Proof.
  unfold router.CreateRouter.
  destruct (run_ops_lists ops NewGinFactory) as [-> ->].
  reflexivity.
Qed.

End GinFactoryFacts.
